(** * Severity levels and logger derivation of package [log]

    A shallow embedding of [levels.go] (the [Level] enumeration, its
    [String] method and [ParseLogLevel]) together with the derivation
    contract of the logger interface, and the properties the package
    documentation states about them; then the functions the design
    document of the package gives with a body, [Tools.Get] and
    [obscontext.WithObs] / [obscontext.Obs].

    Go strings are byte sequences: they are modelled by [string], whose
    characters are the 256 values of [ascii].  [Level] is a Go [int] and
    is modelled by [Z]; every level the code builds lies in [0..7], far
    from any wrap-around. *)

From Stdlib Require Import ZArith NArith Ascii String List Bool Lia.
From stdpp Require Import base gmap strings list.

Local Open Scope Z_scope.

(** ** The part of the Go runtime that [levels.go] calls *)

(** [utf8.RuneSelf]: bytes below it are single-byte (ASCII) runes. *)
Definition RuneSelf : N := 128.

Definition byteOf (c : ascii) : N := N_of_ascii c.

(** ['A' <= c && c <= 'Z'] *)
Definition isUpperByte (c : ascii) : bool :=
  ((65 <=? byteOf c) && (byteOf c <=? 90))%N.

(** ['a' <= c && c <= 'z'] *)
Definition isLowerByte (c : ascii) : bool :=
  ((97 <=? byteOf c) && (byteOf c <=? 122))%N.

(** [c += 'a' - 'A'] for an upper-case byte, the byte itself otherwise. *)
Definition lowerByte (c : ascii) : ascii :=
  if isUpperByte c then ascii_of_N (byteOf c + 32) else c.

(** The capital of a lower-case byte: [c -= 'a' - 'A']. *)
Definition upperByte (c : ascii) : ascii :=
  if isLowerByte c then ascii_of_N (byteOf c - 32) else c.

(** First loop of [strings.ToLower]: scans until the first byte that is
    not ASCII, recording whether a capital was seen on the way.  Returns
    the pair [(isASCII, hasUpper)]. *)
Fixpoint scanASCII (s : string) (hasUpper : bool) : bool * bool :=
  match s with
  | EmptyString => (true, hasUpper)
  | String c rest =>
      if (RuneSelf <=? byteOf c)%N then (false, hasUpper)
      else scanASCII rest (hasUpper || isUpperByte c)
  end.

(** Second loop of [strings.ToLower] (the ASCII fast path): every capital
    is replaced by its lower-case byte, all other bytes are copied. *)
Fixpoint lowerASCII (s : string) : string :=
  match s with
  | EmptyString => EmptyString
  | String c rest => String (lowerByte c) (lowerASCII rest)
  end.

(** The slow path of [strings.ToLower] is [strings.Map(unicode.ToLower, s)]:
    it decodes UTF-8 and consults the Unicode case tables of the Go
    distribution.  Those tables are not part of this package, so the
    mapping is an interface the development is parametrised by. *)
Class UnicodeCase := { mapToLower : string -> string }.

(** What the Unicode tables guarantee about lower-casing: doing it twice
    changes nothing, and no ASCII capital survives it. *)
Class UnicodeCaseLaws (U : UnicodeCase) : Prop := {
  mapToLower_idem : forall s, mapToLower (mapToLower s) = mapToLower s;
  mapToLower_no_upper :
    forall s, scanASCII (mapToLower s) false = (true, true) -> False
}.

(** [strings.ToLower] *)
Definition ToLower `{UnicodeCase} (s : string) : string :=
  let '(isASCII, hasUpper) := scanASCII s false in
  if isASCII then
    if negb hasUpper then s else lowerASCII s
  else mapToLower s.

(** [strings.Join] *)
Fixpoint Join (elems : list string) (sep : string) : string :=
  match elems with
  | [] => ""
  | [e] => e
  | e :: rest => e +:+ sep +:+ Join rest sep
  end.

(** [fmt.Sprintf] restricted to the verb the package uses: [%s] prints the
    next operand byte for byte, a missing operand prints [%!s(MISSING)],
    and every other byte of the format is copied. *)
Fixpoint Sprintf (format : string) (args : list string) : string :=
  match format with
  | String "%" (String "s" rest) =>
      match args with
      | a :: args' => a +:+ Sprintf rest args'
      | [] => "%!s(MISSING)" +:+ Sprintf rest []
      end
  | String c rest => String c (Sprintf rest args)
  | EmptyString => EmptyString
  end.

(** A Go [error] is observed through its message; [None] is [nil]. *)
Definition error := option string.

(** [fmt.Errorf] *)
Definition Errorf (format : string) (args : list string) : error :=
  Some (Sprintf format args).

(** ** levels.go *)

(** [type Level int] *)
Definition Level := Z.

(** The [const ( ... )] block: [LevelUndefined = Level(iota)], and each
    following name repeats the expression with [iota] one larger. *)
Definition LevelUndefined : Level := 0.
Definition LevelFatal : Level := 1.
Definition LevelCritical : Level := 2.
Definition LevelError : Level := 3.
Definition LevelWarning : Level := 4.
Definition LevelInfo : Level := 5.
Definition LevelDebug : Level := 6.
Definition LevelTrace : Level := 7.

(** [func (logLevel Level) String() string] *)
Definition Level_String (logLevel : Level) : string :=
  if logLevel =? LevelUndefined then "undefined"
  else if logLevel =? LevelTrace then "trace"
  else if logLevel =? LevelDebug then "debug"
  else if logLevel =? LevelInfo then "info"
  else if logLevel =? LevelWarning then "warning"
  else if logLevel =? LevelError then "error"
  else if logLevel =? LevelCritical then "critical"
  else if logLevel =? LevelFatal then "fatal"
  else "unknown".

(** The loop
    [for logLevel := LevelFatal; logLevel <= LevelDebug; logLevel++]
    appending [logLevel.String()] to [allowedValues]. *)
Definition allowedValues : list string :=
  fold_left (fun acc logLevel => acc ++ [Level_String logLevel])
            (seqZ LevelFatal (LevelDebug + 1 - LevelFatal)) [].

(** One [case] of the [switch]: does the subject equal one of the labels? *)
Definition caseOf (subject : string) (labels : list string) : bool :=
  existsb (String.eqb subject) labels.

(** [func ParseLogLevel(in string) (Level, error)] *)
Definition ParseLogLevel `{UnicodeCase} (in_ : string) : Level * error :=
  let subject := ToLower in_ in
  if caseOf subject ["t"; "trace"] then (LevelDebug, None)
  else if caseOf subject ["d"; "debug"] then (LevelDebug, None)
  else if caseOf subject ["i"; "info"] then (LevelInfo, None)
  else if caseOf subject ["w"; "warn"; "warning"] then (LevelWarning, None)
  else if caseOf subject ["e"; "err"; "error"] then (LevelError, None)
  else if caseOf subject ["c"; "critical"] then (LevelCritical, None)
  else if caseOf subject ["f"; "fatal"] then (LevelFatal, None)
  else
    (LevelUndefined,
     Errorf "unknown logging level '%s', known values are: %s"
            [in_; Join allowedValues ", "]).

(** The case mapping restricted to strings whose runes outside ASCII have
    no case: such runes are copied and the ASCII capitals are lowered. *)
Definition caselessUnicode : UnicodeCase := {| mapToLower := lowerASCII |}.

(** ** Vocabulary of the statements about [ParseLogLevel] *)

(** Every [case] label of [ParseLogLevel] with the level its branch
    returns. *)
Definition knownAliases : list (string * Level) :=
  [ ("t", LevelDebug); ("trace", LevelDebug);
    ("d", LevelDebug); ("debug", LevelDebug);
    ("i", LevelInfo); ("info", LevelInfo);
    ("w", LevelWarning); ("warn", LevelWarning); ("warning", LevelWarning);
    ("e", LevelError); ("err", LevelError); ("error", LevelError);
    ("c", LevelCritical); ("critical", LevelCritical);
    ("f", LevelFatal); ("fatal", LevelFatal) ].

(** The tokens of the level text encoding. *)
Definition canonicalTokens : list string :=
  ["undefined"; "trace"; "debug"; "info"; "warning"; "error"; "critical";
   "fatal"].

(** The tokens of the levels [LevelFatal .. LevelDebug]. *)
Definition operatingTokens : list string :=
  ["debug"; "info"; "warning"; "error"; "critical"; "fatal"].

(** [anyCase s tok]: [s] spells the lower-case word [tok] with each
    letter in either case. *)
Fixpoint anyCase (s tok : string) : bool :=
  match s, tok with
  | EmptyString, EmptyString => true
  | String c s', String t tok' =>
      (Ascii.eqb c t || Ascii.eqb c (upperByte t)) && anyCase s' tok'
  | _, _ => false
  end.

(** A word made of the bytes ['a' .. 'z'] only. *)
Fixpoint lowerWord (tok : string) : bool :=
  match tok with
  | EmptyString => true
  | String t tok' => isLowerByte t && lowerWord tok'
  end.

(** Parsing [in_] succeeds and printing the level gives [tok] back. *)
Definition roundTrip `{UnicodeCase} (in_ tok : string) : Prop :=
  snd (ParseLogLevel in_) = None /\
  Level_String (fst (ParseLogLevel in_)) = tok.

(** Every canonical token, in any letter case, parses and prints back as
    itself. *)
Definition canonicalRoundTrip `{UnicodeCase} : Prop :=
  forall tok in_ : string,
    In tok canonicalTokens -> anyCase in_ tok = true -> roundTrip in_ tok.

(** The text [fmt.Errorf] produces for a rejected input. *)
Definition rejection (in_ : string) : string :=
  "unknown logging level '" +:+ in_ +:+
  "', known values are: fatal, critical, error, warning, info, debug".

(** ** The derivation contract of the logger *)

(** Go objects live on a heap and are passed around by reference. *)
Definition ref := positive.

(** [type Field struct]: the key and the three places a value can be
    stored in, of which [Type_] selects one; [Integer] is an [int64],
    [Interface], [Type_] and the properties are references to Go
    objects.  ([String_] and [Type_] stand for the members [String] and
    [Type].) *)
Record Field := {
  Key : string;
  Integer : Z;
  String_ : string;
  Interface : option ref;
  Type_ : ref;
  Properties : list ref
}.

(** [type Fields []Field]: an ordered sequence of fields. *)
Abbreviation Fields := (list Field).

Definition keysOf (fs : Fields) : list string := Key <$> fs.

(** Modelled from the spec: reading a key from a field sequence.  No
    implementation is in the package; the specification asks that later
    entries with an equal key shadow earlier ones, so the read returns
    the last entry carrying the key. *)
Definition getField (k : string) (fs : Fields) : option Field :=
  last (filter (fun f => Key f = k) fs).

(** Modelled from the spec: the merge rule of a derivation, which no file
    of the package implements.  New fields are appended to the
    receiver's, nothing is removed, and [getField] resolves duplicates. *)
Definition mergeFields (receiver new : Fields) : Fields := receiver ++ new.

(** Modelled from the spec: the state of a logger, of which the package
    has only the interface: its level, its accumulated fields and the
    references of its attached hooks. *)
Record LoggerObj := {
  loggerLevel : Level;
  loggerFields : Fields;
  loggerHooks : list ref
}.

(** Modelled from the spec: the accessors [Fields()], [Level()] and
    [Hooks()] of the logger interface, reading the object a reference
    points to; [None] stands for the failure of a call on a dangling
    reference. *)
Definition Logger_Fields (L : ref) (heap : gmap ref LoggerObj) : option Fields :=
  loggerFields <$> heap !! L.

Definition Logger_Level (L : ref) (heap : gmap ref LoggerObj) : option Level :=
  loggerLevel <$> heap !! L.

Definition Logger_Hooks (L : ref) (heap : gmap ref LoggerObj) : option (list ref) :=
  loggerHooks <$> heap !! L.

(** Modelled from the spec: [WithFields], declared in the logger
    interface and implemented nowhere in the package.  It allocates a new
    logger whose fields are the receiver's merged with the new ones and
    whose level and hooks are the receiver's, and returns its reference
    with the extended heap. *)
Definition WithFields (L : ref) (F : Fields) (heap : gmap ref LoggerObj)
  : option (ref * gmap ref LoggerObj) :=
  match heap !! L with
  | Some receiver =>
      let derived := fresh (dom heap) in
      Some (derived,
            <[derived := {| loggerLevel := loggerLevel receiver;
                            loggerFields := mergeFields (loggerFields receiver) F;
                            loggerHooks := loggerHooks receiver |}]> heap)
  | None => None
  end.

(** A heap with one logger at level Info, carrying the field
    [request=1] and one hook, and a field set that rewrites [request]
    and adds [user]. *)
Definition sampleLogger : LoggerObj :=
  {| loggerLevel := LevelInfo;
     loggerFields := [ {| Key := "request"; Integer := 1; String_ := "";
                          Interface := None; Type_ := 2%positive;
                          Properties := [] |} ];
     loggerHooks := [7%positive] |}.

Definition sampleHeap : gmap ref LoggerObj := {[ 1%positive := sampleLogger ]}.

Definition sampleFields : Fields :=
  [ {| Key := "request"; Integer := 2; String_ := ""; Interface := None;
       Type_ := 2%positive; Properties := [] |};
    {| Key := "user"; Integer := 0; String_ := "ann"; Interface := None;
       Type_ := 3%positive; Properties := [] |} ].

(** ** Further vocabulary for [levels.go] *)

(** [isASCII] as the first loop of [strings.ToLower] leaves it: no byte of
    [s] reaches [utf8.RuneSelf]. *)
Definition isASCII (s : string) : bool := fst (scanASCII s false).

(** The [case] labels of [ParseLogLevel]. *)
Definition knownLabels : list string := fst <$> knownAliases.

(** ** The tool collection of the observability proposal *)

(** A non-nil Go interface value: the descriptor of its dynamic type and
    its data.  Type descriptors are unique per type, so comparing two
    [reflect.Type] values compares these references. *)
Record iface := { dynType : ref; dynData : ref }.

(** [type Tool interface { ... }]: a value of interface type, [None] being
    the nil interface. *)
Definition Tool : Type := option iface.

(** [reflect.Type], [None] being the nil [Type]. *)
Definition reflect_Type : Type := option ref.

(** [reflect.TypeOf]: the dynamic type of an interface value, the nil
    [Type] for the nil interface. *)
Definition reflect_TypeOf (i : option iface) : reflect_Type := dynType <$> i.

(** [func (tools Tools) Get(toolType reflect.Type) Tool]:
    the [range] loop returns the first tool whose dynamic type is
    [toolType]; [nil] is returned after the loop. *)
Fixpoint Tools_Get (tools : list Tool) (toolType : reflect_Type) : Tool :=
  match tools with
  | [] => None
  | tool :: rest =>
      if decide (reflect_TypeOf tool = toolType) then tool
      else Tools_Get rest toolType
  end.

(** ** Package [obscontext] of the proposal *)

(** The keys a context is asked for: [ctxKeyObserver], the one constant of
    the unexported type [ctxKey], or a key of some other type, which no
    comparison makes equal to it. *)
Inductive contextKey :=
| ctxKeyObserver
| foreignKey (k : ref).

(** A Go pointer. *)
Inductive pointer :=
| nilPointer
| addressOf (r : ref).

(** The values a context holds, of static type [interface{}]: the nil
    interface, a [*Observer] (a nil pointer in an interface is not the
    nil interface), or a value of another type. *)
Inductive contextValue :=
| nilValue
| observerValue (p : pointer)
| foreignValue (v : ref).

(** A [context.Context] as far as [Value] sees it: the chain of
    [context.WithValue] layers, the innermost first, ending in a root
    that holds nothing. *)
Abbreviation Context := (list (contextKey * contextValue)).

#[global] Instance contextKey_eq_dec : EqDecision contextKey.
Proof. solve_decision. Defined.

(** [context.WithValue]: a new layer around [parent]. *)
Definition context_WithValue
    (parent : Context) (key : contextKey) (val : contextValue) : Context :=
  (key, val) :: parent.

(** [ctx.Value(key)]: the value of the innermost layer with an equal key,
    nil when no layer has it. *)
Fixpoint context_Value (ctx : Context) (key : contextKey) : contextValue :=
  match ctx with
  | [] => nilValue
  | (k, v) :: parent =>
      if decide (k = key) then v else context_Value parent key
  end.

(** [func WithObs(ctx context.Context, obs *Observer) context.Context] *)
Definition WithObs (ctx : Context) (obs : pointer) : Context :=
  context_WithValue ctx ctxKeyObserver (observerValue obs).

(** [func Obs(ctx context.Context) *Observer]; [Default] is what
    [obs.Default()] returns.  The type assertion of [observer] to a
    pointer to [Observer] panics on a value of another type: that is the
    result [None]. *)
Definition Obs (Default : pointer) (ctx : Context) : option pointer :=
  match context_Value ctx ctxKeyObserver with
  | nilValue => Some Default
  | observerValue p => Some p
  | foreignValue _ => None
  end.

(** The contexts a program can build: the root, and layers added by
    [WithObs] or, under keys of their own, by other packages. *)
Inductive reachableContext : Context -> Prop :=
| reachable_root : reachableContext []
| reachable_WithObs ctx obs :
    reachableContext ctx -> reachableContext (WithObs ctx obs)
| reachable_foreign ctx k val :
    reachableContext ctx ->
    reachableContext (context_WithValue ctx (foreignKey k) val).

(** ** The Go runtime helpers *)

Lemma isUpperByte_spec (c : ascii) :
  isUpperByte c = true <-> (65 <= byteOf c <= 90)%N.
Proof.
  unfold isUpperByte. rewrite andb_true_iff, !N.leb_le. tauto.
Qed.

Lemma isLowerByte_spec (c : ascii) :
  isLowerByte c = true <-> (97 <= byteOf c <= 122)%N.
Proof.
  unfold isLowerByte. rewrite andb_true_iff, !N.leb_le. tauto.
Qed.

Lemma byteOf_ascii_of_N (n : N) : (n < 256)%N -> byteOf (ascii_of_N n) = n.
Proof. intros Hn. unfold byteOf. now apply N_ascii_embedding. Qed.

Lemma isUpperByte_lowerByte (c : ascii) : isUpperByte (lowerByte c) = false.
Proof.
  unfold lowerByte. destruct (isUpperByte c) eqn:E; [|exact E].
  apply isUpperByte_spec in E.
  apply not_true_is_false. rewrite isUpperByte_spec.
  rewrite byteOf_ascii_of_N by lia. lia.
Qed.

Lemma lowerByte_idem (c : ascii) : lowerByte (lowerByte c) = lowerByte c.
Proof.
  unfold lowerByte at 1. now rewrite isUpperByte_lowerByte.
Qed.

Lemma lowerByte_below_RuneSelf (c : ascii) :
  (RuneSelf <=? byteOf (lowerByte c))%N = (RuneSelf <=? byteOf c)%N.
Proof.
  unfold lowerByte. destruct (isUpperByte c) eqn:E; [|reflexivity].
  apply isUpperByte_spec in E. rewrite byteOf_ascii_of_N by lia.
  unfold RuneSelf.
  transitivity false; [|symmetry]; apply N.leb_gt; lia.
Qed.

(** A lower-case letter is its capital's lower-case byte. *)
Lemma lowerByte_upperByte (t : ascii) :
  isLowerByte t = true -> lowerByte (upperByte t) = t.
Proof.
  intros Ht. unfold upperByte. rewrite Ht.
  apply isLowerByte_spec in Ht.
  assert (Hup : isUpperByte (ascii_of_N (byteOf t - 32)) = true).
  { apply isUpperByte_spec. rewrite byteOf_ascii_of_N by lia. lia. }
  unfold lowerByte. rewrite Hup. rewrite byteOf_ascii_of_N by lia.
  replace (byteOf t - 32 + 32)%N with (byteOf t) by lia.
  apply ascii_N_embedding.
Qed.

Lemma lowerByte_lower (t : ascii) : isLowerByte t = true -> lowerByte t = t.
Proof.
  intros Ht. apply isLowerByte_spec in Ht. unfold lowerByte.
  replace (isUpperByte t) with false; [reflexivity|].
  symmetry. apply not_true_is_false. rewrite isUpperByte_spec. lia.
Qed.

(** The scan only ever switches [hasUpper] on. *)
Lemma scanASCII_acc (s : string) (acc : bool) :
  scanASCII s acc = (fst (scanASCII s false), acc || snd (scanASCII s false)).
Proof.
  revert acc. induction s as [|c s IH]; intros acc; simpl.
  - now rewrite orb_false_r.
  - destruct (RuneSelf <=? byteOf c)%N; simpl.
    + now rewrite orb_false_r.
    + rewrite (IH (acc || isUpperByte c)), (IH (isUpperByte c)). simpl.
      now rewrite orb_assoc.
Qed.

(** Without a capital the fast path has nothing to rewrite. *)
Lemma lowerASCII_no_upper (s : string) :
  scanASCII s false = (true, false) -> lowerASCII s = s.
Proof.
  induction s as [|c s IH]; simpl; [reflexivity|].
  destruct (RuneSelf <=? byteOf c)%N; [discriminate|].
  rewrite scanASCII_acc. intros [= H1 H2].
  apply orb_false_iff in H2 as [Hc Hs].
  unfold lowerByte. rewrite Hc. f_equal. apply IH.
  now rewrite (surjective_pairing (scanASCII s false)), H1, Hs.
Qed.

(** On ASCII input [ToLower] is the byte-wise lowering. *)
Lemma ToLower_ascii `{UnicodeCase} (s : string) :
  fst (scanASCII s false) = true -> ToLower s = lowerASCII s.
Proof.
  intros Hs. unfold ToLower.
  destruct (scanASCII s false) as [a u] eqn:E. simpl in Hs. subst a.
  destruct u; simpl; [reflexivity|].
  symmetry. now apply lowerASCII_no_upper.
Qed.

Lemma scanASCII_lowerASCII (s : string) :
  scanASCII (lowerASCII s) false = (fst (scanASCII s false), false).
Proof.
  induction s as [|c s IH]; simpl; [reflexivity|].
  rewrite lowerByte_below_RuneSelf.
  destruct (RuneSelf <=? byteOf c)%N; [reflexivity|].
  rewrite isUpperByte_lowerByte, IH.
  now rewrite (scanASCII_acc s (isUpperByte c)).
Qed.

Lemma lowerASCII_idem (s : string) : lowerASCII (lowerASCII s) = lowerASCII s.
Proof.
  induction s as [|c s IH]; simpl; [reflexivity|].
  now rewrite lowerByte_idem, IH.
Qed.

(** Any spelling of a lower-case word is ASCII and lowers to the word. *)
Lemma anyCase_lowerASCII (s tok : string) :
  lowerWord tok = true -> anyCase s tok = true ->
  fst (scanASCII s false) = true /\ lowerASCII s = tok.
Proof.
  revert s. induction tok as [|t tok IH]; intros [|c s]; simpl;
    try discriminate; [now split|].
  rewrite !andb_true_iff. intros [Ht Htok] [Hc Hs].
  destruct (IH s Htok Hs) as [IH1 IH2].
  pose proof (proj1 (isLowerByte_spec t) Ht) as Hrange.
  assert (Hlow : lowerByte c = t /\ (byteOf c < 128)%N).
  { apply orb_true_iff in Hc as [Hc|Hc]; apply Ascii.eqb_eq in Hc; subst c.
    - split; [now apply lowerByte_lower|lia].
    - split; [now apply lowerByte_upperByte|].
      unfold upperByte. rewrite Ht. rewrite byteOf_ascii_of_N by lia. lia. }
  destruct Hlow as [Hlow Hlt].
  replace (RuneSelf <=? byteOf c)%N with false
    by (symmetry; apply N.leb_gt; exact Hlt).
  rewrite scanASCII_acc. simpl. split; [exact IH1|]. now rewrite Hlow, IH2.
Qed.

Lemma ToLower_anyCase `{UnicodeCase} (s tok : string) :
  lowerWord tok = true -> anyCase s tok = true -> ToLower s = tok.
Proof.
  intros Htok Hs. destruct (anyCase_lowerASCII s tok Htok Hs) as [Ha Hl].
  now rewrite ToLower_ascii.
Qed.

(** [ToLower] of an ASCII string is a fixed point of [ToLower]. *)
Lemma ToLower_fixed_ascii `{UnicodeCase} (s : string) :
  fst (scanASCII s false) = true -> ToLower (ToLower s) = ToLower s.
Proof.
  intros Hs. rewrite (ToLower_ascii s Hs).
  rewrite ToLower_ascii by (now rewrite scanASCII_lowerASCII).
  apply lowerASCII_idem.
Qed.

Lemma ToLower_idem `{U : UnicodeCase} `{!UnicodeCaseLaws U} (s : string) :
  ToLower (ToLower s) = ToLower s.
Proof.
  destruct (fst (scanASCII s false)) eqn:Hs.
  - now apply ToLower_fixed_ascii.
  - assert (Hm : ToLower s = mapToLower s).
    { unfold ToLower. destruct (scanASCII s false) as [a u].
      simpl in Hs. now subst a. }
    rewrite Hm. unfold ToLower.
    destruct (scanASCII (mapToLower s) false) as [a u] eqn:E.
    destruct a; [|apply mapToLower_idem].
    destruct u; simpl; [|reflexivity].
    exfalso. exact (mapToLower_no_upper s E).
Qed.

(** The byte-wise mapping obeys the laws of the case tables. *)
Lemma caselessUnicode_laws : UnicodeCaseLaws caselessUnicode.
Proof.
  split; simpl; intros s.
  - apply lowerASCII_idem.
  - rewrite scanASCII_lowerASCII. intros [= _ ?].
Qed.

(** ** [Level] and [Level.String] *)

(** C4: the level constants carry the encoding 0, 1, ..., 7 in the order
    Undefined, Fatal, Critical, Error, Warning, Info, Debug, Trace; each
    is one more than the constant before it, so they are strictly
    increasing, and the order on [Level] that compares them is a strict
    total order. *)
Theorem Level_constants_encoding :
  [LevelUndefined; LevelFatal; LevelCritical; LevelError; LevelWarning;
   LevelInfo; LevelDebug; LevelTrace] = [0; 1; 2; 3; 4; 5; 6; 7] /\
  (LevelFatal = LevelUndefined + 1 /\ LevelCritical = LevelFatal + 1 /\
   LevelError = LevelCritical + 1 /\ LevelWarning = LevelError + 1 /\
   LevelInfo = LevelWarning + 1 /\ LevelDebug = LevelInfo + 1 /\
   LevelTrace = LevelDebug + 1) /\
  (LevelUndefined < LevelFatal /\ LevelFatal < LevelCritical /\
   LevelCritical < LevelError /\ LevelError < LevelWarning /\
   LevelWarning < LevelInfo /\ LevelInfo < LevelDebug /\
   LevelDebug < LevelTrace) /\
  (forall a : Level, ~ a < a) /\
  (forall a b c : Level, a < b -> b < c -> a < c) /\
  (forall a b : Level, a < b \/ a = b \/ b < a).
Proof.
  unfold LevelUndefined, LevelFatal, LevelCritical, LevelError, LevelWarning,
    LevelInfo, LevelDebug, LevelTrace.
  repeat split; try reflexivity; intros; lia.
Qed.

(** Outside the eight constants no [case] of [String] fires. *)
Lemma Level_String_outside (l : Level) :
  l < LevelUndefined \/ LevelTrace < l -> Level_String l = "unknown".
Proof.
  unfold LevelUndefined, LevelTrace. intros Hl. unfold Level_String.
  unfold LevelUndefined, LevelFatal, LevelCritical, LevelError, LevelWarning,
    LevelInfo, LevelDebug, LevelTrace.
  repeat match goal with
         | |- context [?a =? ?b] =>
             let E := fresh "E" in
             destruct (Z.eqb_spec a b) as [E|E]; [exfalso; lia|]
         end.
  reflexivity.
Qed.

(** C5: [Level.String] is defined on every [Level]: each constant prints
    its canonical token, and every value that is none of the constants
    prints "unknown". *)
Theorem Level_String_total :
  Level_String LevelUndefined = "undefined" /\
  Level_String LevelTrace = "trace" /\
  Level_String LevelDebug = "debug" /\
  Level_String LevelInfo = "info" /\
  Level_String LevelWarning = "warning" /\
  Level_String LevelError = "error" /\
  Level_String LevelCritical = "critical" /\
  Level_String LevelFatal = "fatal" /\
  (forall l : Level,
     ~ In l [LevelUndefined; LevelFatal; LevelCritical; LevelError;
             LevelWarning; LevelInfo; LevelDebug; LevelTrace] ->
     Level_String l = "unknown") /\
  (forall l : Level, exists token, Level_String l = token).
Proof.
  repeat (split; [reflexivity|]). split.
  - intros l Hl. simpl in Hl.
    destruct (Z.lt_ge_cases l LevelUndefined) as [Hlo|Hlo];
      [apply Level_String_outside; now left|].
    destruct (Z.lt_ge_cases LevelTrace l) as [Hhi|Hhi];
      [apply Level_String_outside; now right|].
    exfalso. unfold LevelUndefined, LevelFatal, LevelCritical, LevelError,
      LevelWarning, LevelInfo, LevelDebug, LevelTrace in *.
    assert (l = 0 \/ l = 1 \/ l = 2 \/ l = 3 \/ l = 4 \/ l = 5 \/ l = 6 \/ l = 7)
      by lia.
    intuition congruence.
  - intros l. now exists (Level_String l).
Qed.

(** A value beyond the constants, in both directions. *)
Lemma Level_String_total_witness :
  Level_String 8 = "unknown" /\ Level_String (-1) = "unknown".
Proof.
  destruct Level_String_total as (_ & _ & _ & _ & _ & _ & _ & _ & Hout & _).
  split; apply Hout; vm_compute; intuition discriminate.
Defined.

(** ** [ParseLogLevel] *)

Lemma caseOf_hit (subject : string) (labels : list string) :
  In subject labels -> caseOf subject labels = true.
Proof.
  intros Hin. unfold caseOf. apply existsb_exists.
  exists subject. split; [exact Hin|apply String.eqb_refl].
Qed.

Lemma caseOf_miss (subject : string) (labels : list string) :
  ~ In subject labels -> caseOf subject labels = false.
Proof.
  intros Hout. apply not_true_is_false. unfold caseOf.
  rewrite existsb_exists. intros (l & Hl & Heq).
  apply String.eqb_eq in Heq. now subst l.
Qed.

Lemma caseOf_In (subject : string) (labels : list string) :
  caseOf subject labels = true -> In subject labels.
Proof.
  unfold caseOf. rewrite existsb_exists. intros (l & Hl & Heq).
  apply String.eqb_eq in Heq. now subst l.
Qed.

(** The printed list of allowed values. *)
Lemma allowedValues_eq :
  allowedValues = ["fatal"; "critical"; "error"; "warning"; "info"; "debug"].
Proof. reflexivity. Qed.

(** The decision of [ParseLogLevel] when the lowered input is a label. *)
Lemma ParseLogLevel_label `{UnicodeCase} (in_ tok : string) (lvl : Level) :
  In (tok, lvl) knownAliases -> ToLower in_ = tok ->
  ParseLogLevel in_ = (lvl, None).
Proof.
  intros Hin Heq. unfold ParseLogLevel. rewrite Heq. clear Heq.
  simpl in Hin.
  repeat (destruct Hin as [[= <- <-]|Hin]; [reflexivity|]).
  contradiction.
Qed.

(** The decision of [ParseLogLevel] when the lowered input is no label. *)
Lemma ParseLogLevel_no_label `{UnicodeCase} (in_ : string) :
  ~ In (ToLower in_) (fst <$> knownAliases) ->
  ParseLogLevel in_ = (LevelUndefined, Some (rejection in_)).
Proof.
  intros Hout. unfold ParseLogLevel.
  rewrite !caseOf_miss by (intros Hin; apply Hout; simpl in *; tauto).
  reflexivity.
Qed.

(** Level and outcome are read off the lowered input alone. *)
Lemma ParseLogLevel_by_subject `{UnicodeCase} (a b : string) :
  ToLower a = ToLower b ->
  fst (ParseLogLevel a) = fst (ParseLogLevel b) /\
  (snd (ParseLogLevel a) = None <-> snd (ParseLogLevel b) = None).
Proof.
  intros Heq. unfold ParseLogLevel. rewrite Heq.
  repeat match goal with
         | |- context [if caseOf ?s ?ls then _ else _] =>
             destruct (caseOf s ls); [simpl; tauto|]
         end.
  simpl. split; [reflexivity|]. split; discriminate.
Qed.

(** C1: every known level token, full name or short alias, spelled in any
    letter case, parses with a nil error to the level of its [case]
    branch; "t" and "trace" give [LevelDebug], which is not
    [LevelTrace]. *)
Theorem ParseLogLevel_known_tokens `{UnicodeCase}
    (in_ tok : string) (lvl : Level) :
  In (tok, lvl) knownAliases -> anyCase in_ tok = true ->
  ParseLogLevel in_ = (lvl, None) /\
  (tok = "t" \/ tok = "trace" -> lvl = LevelDebug /\ lvl <> LevelTrace).
Proof.
  intros Hin Hcase. split.
  - apply (ParseLogLevel_label in_ tok lvl Hin).
    apply ToLower_anyCase; [|exact Hcase].
    simpl in Hin.
    repeat (destruct Hin as [[= <- <-]|Hin]; [reflexivity|]).
    contradiction.
  - intros Htok. simpl in Hin.
    repeat (destruct Hin as [[= <- <-]|Hin];
            [first [split; [reflexivity|discriminate]
                   |destruct Htok; discriminate]|]).
    contradiction.
Qed.

(** "TrAcE" is read as [LevelDebug]. *)
Lemma ParseLogLevel_known_tokens_witness :
  @ParseLogLevel caselessUnicode "TrAcE" = (LevelDebug, None) /\
  ("trace" = "t" \/ "trace" = "trace" ->
   LevelDebug = LevelDebug /\ LevelDebug <> LevelTrace).
Proof.
  apply (@ParseLogLevel_known_tokens caselessUnicode "TrAcE" "trace" LevelDebug).
  - vm_compute. tauto.
  - reflexivity.
Defined.

(** C2 fails at "undefined", which is rejected with an error, and at
    "trace", which parses to [LevelDebug] and prints back as "debug". *)
Lemma canonical_roundTrip_counterexample :
  (@ParseLogLevel caselessUnicode "undefined"
     = (LevelUndefined, Some (rejection "undefined")) /\
   @ParseLogLevel caselessUnicode "trace" = (LevelDebug, None) /\
   Level_String LevelDebug = "debug") /\
  (@canonicalRoundTrip caselessUnicode -> False).
Proof.
  split; [repeat split|].
  intros Hall.
  destruct (Hall "trace" "trace") as [_ Hprint];
    [vm_compute; tauto|reflexivity|].
  vm_compute in Hprint. discriminate Hprint.
Qed.

(** C2, amended: for every token of the levels Fatal..Debug ("debug",
    "info", "warning", "error", "critical", "fatal"), in any letter case,
    [ParseLogLevel] succeeds and [String] of the level it returns is that
    token. *)
Theorem operating_tokens_roundTrip `{UnicodeCase} (tok in_ : string) :
  In tok operatingTokens -> anyCase in_ tok = true -> roundTrip in_ tok.
Proof.
  intros Hin Hcase. unfold roundTrip.
  assert (Hparse : exists lvl, In (tok, lvl) knownAliases /\
                               Level_String lvl = tok).
  { simpl in Hin.
    repeat (destruct Hin as [<-|Hin];
            [eexists; split; [simpl; auto 20|reflexivity]|]).
    contradiction. }
  destruct Hparse as (lvl & Halias & Hprint).
  assert (Hlow : ToLower in_ = tok).
  { apply ToLower_anyCase; [|exact Hcase].
    simpl in Hin.
    repeat (destruct Hin as [<-|Hin]; [reflexivity|]). contradiction. }
  rewrite (ParseLogLevel_label in_ tok lvl Halias Hlow). now split.
Qed.

(** "WARNING" parses and prints back as "warning". *)
Lemma operating_tokens_roundTrip_witness :
  @roundTrip caselessUnicode "WARNING" "warning".
Proof.
  apply (@operating_tokens_roundTrip caselessUnicode "warning" "WARNING").
  - vm_compute. tauto.
  - reflexivity.
Defined.

(** C3: an input whose lowered form is none of the labels is answered, not
    aborted: the result is [LevelUndefined] with a non-nil error whose
    message lists as known values exactly the names of the levels
    Fatal..Debug; "trace" and "undefined" are not in the list, and every
    listed value is itself accepted by [ParseLogLevel]. *)
Theorem ParseLogLevel_unknown `{UnicodeCase} (in_ : string) :
  ~ In (ToLower in_) (fst <$> knownAliases) ->
  (exists msg,
     ParseLogLevel in_ = (LevelUndefined, Some msg) /\
     msg = "unknown logging level '" +:+ in_ +:+ "', known values are: "
           +:+ Join allowedValues ", ") /\
  allowedValues =
    Level_String <$> [LevelFatal; LevelCritical; LevelError; LevelWarning;
                      LevelInfo; LevelDebug] /\
  allowedValues = ["fatal"; "critical"; "error"; "warning"; "info"; "debug"] /\
  ~ In "trace" allowedValues /\ ~ In "undefined" allowedValues /\
  (exists v, In v allowedValues) /\
  (forall v, In v allowedValues -> snd (ParseLogLevel v) = None).
Proof.
  intros Hout. split; [|repeat split].
  - exists (rejection in_). split; [now apply ParseLogLevel_no_label|].
    reflexivity.
  - rewrite allowedValues_eq. simpl. intuition discriminate.
  - rewrite allowedValues_eq. simpl. intuition discriminate.
  - exists "fatal". rewrite allowedValues_eq. now left.
  - intros v Hv. rewrite allowedValues_eq in Hv. simpl in Hv.
    assert (Hlvl : exists lvl, In (v, lvl) knownAliases).
    { repeat (destruct Hv as [<-|Hv]; [eexists; simpl; auto 20|]).
      contradiction. }
    destruct Hlvl as (lvl & Hlvl).
    rewrite (ParseLogLevel_label v v lvl Hlvl); [reflexivity|].
    apply ToLower_anyCase;
      repeat (destruct Hv as [<-|Hv]; [reflexivity|]); contradiction.
Qed.

(** "verbose" is no level. *)
Lemma ParseLogLevel_unknown_witness :
  exists msg,
    @ParseLogLevel caselessUnicode "verbose" = (LevelUndefined, Some msg) /\
    msg = "unknown logging level 'verbose', known values are: fatal, critical, error, warning, info, debug".
Proof.
  destruct (@ParseLogLevel_unknown caselessUnicode "verbose") as [Hmsg _].
  - vm_compute. intuition discriminate.
  - exact Hmsg.
Defined.

(** C10: the error for a rejected input carries the input between the
    quotes of its message exactly as it was passed, before any case
    folding. *)
Theorem ParseLogLevel_error_quotes_input `{UnicodeCase} (in_ : string) :
  ~ In (ToLower in_) (fst <$> knownAliases) ->
  exists before after,
    snd (ParseLogLevel in_) = Some (before +:+ in_ +:+ after) /\
    before = "unknown logging level '" /\
    after =
      "', known values are: fatal, critical, error, warning, info, debug".
Proof.
  intros Hout. rewrite (ParseLogLevel_no_label in_ Hout).
  eexists _, _. split; [|split; reflexivity]. reflexivity.
Qed.

(** The capitals of "VerBose" are kept in the message. *)
Lemma ParseLogLevel_error_quotes_input_witness :
  snd (@ParseLogLevel caselessUnicode "VerBose") =
  Some "unknown logging level 'VerBose', known values are: fatal, critical, error, warning, info, debug".
Proof.
  destruct (@ParseLogLevel_error_quotes_input caselessUnicode "VerBose")
    as (before & after & Hmsg & -> & ->).
  - vm_compute. intuition discriminate.
  - exact Hmsg.
Defined.

(** C6: [ParseLogLevel] reads its input through [strings.ToLower] only:
    the lower-cased form of an input gets the same level and the same
    outcome as the input, and so do any two inputs with the same
    lower-cased form. *)
Theorem ParseLogLevel_case_insensitive
    `{U : UnicodeCase} `{!UnicodeCaseLaws U} (in_ : string) :
  (fst (ParseLogLevel (ToLower in_)) = fst (ParseLogLevel in_) /\
   (snd (ParseLogLevel (ToLower in_)) = None <->
    snd (ParseLogLevel in_) = None)) /\
  (forall other : string,
     ToLower other = ToLower in_ ->
     fst (ParseLogLevel other) = fst (ParseLogLevel in_) /\
     (snd (ParseLogLevel other) = None <-> snd (ParseLogLevel in_) = None)).
Proof.
  split.
  - apply ParseLogLevel_by_subject, ToLower_idem.
  - intros other Heq. now apply ParseLogLevel_by_subject.
Qed.

(** "WaRn", its lower-cased form "warn" and "WARN" all give
    [LevelWarning]. *)
Lemma ParseLogLevel_case_insensitive_witness :
  (fst (@ParseLogLevel caselessUnicode (@ToLower caselessUnicode "WaRn"))
     = fst (@ParseLogLevel caselessUnicode "WaRn") /\
   (snd (@ParseLogLevel caselessUnicode (@ToLower caselessUnicode "WaRn"))
      = None <->
    snd (@ParseLogLevel caselessUnicode "WaRn") = None)) /\
  (fst (@ParseLogLevel caselessUnicode "WARN")
     = fst (@ParseLogLevel caselessUnicode "WaRn") /\
   (snd (@ParseLogLevel caselessUnicode "WARN") = None <->
    snd (@ParseLogLevel caselessUnicode "WaRn") = None)).
Proof.
  destruct (@ParseLogLevel_case_insensitive
              caselessUnicode caselessUnicode_laws "WaRn") as [Hself Hother].
  split; [exact Hself|]. apply Hother. reflexivity.
Defined.

(** C7: the error is non-nil exactly when the level is [LevelUndefined];
    a nil error comes with a level in Fatal..Debug, so neither
    [LevelTrace] nor [LevelUndefined] is ever returned as a success. *)
Theorem ParseLogLevel_error_iff_undefined `{UnicodeCase} (in_ : string) :
  (snd (ParseLogLevel in_) <> None <->
   fst (ParseLogLevel in_) = LevelUndefined) /\
  (snd (ParseLogLevel in_) = None ->
   LevelFatal <= fst (ParseLogLevel in_) <= LevelDebug) /\
  fst (ParseLogLevel in_) <> LevelTrace /\
  ~ (fst (ParseLogLevel in_) = LevelUndefined /\
     snd (ParseLogLevel in_) = None).
Proof.
  unfold ParseLogLevel.
  repeat match goal with
         | |- context [if caseOf ?s ?ls then _ else _] =>
             destruct (caseOf s ls);
             [simpl; unfold LevelUndefined, LevelFatal, LevelCritical,
                LevelError, LevelWarning, LevelInfo, LevelDebug, LevelTrace;
              repeat split; try congruence; try lia; intros; try lia;
              intuition congruence|]
         end.
  simpl. unfold LevelUndefined, LevelTrace.
  repeat split; try congruence; try discriminate; intros; try discriminate.
  intuition discriminate.
Qed.

(** C8: for each level [l] of Fatal..Debug, parsing [l.String()] succeeds
    and returns [l]; for [LevelUndefined] the token is rejected, and for
    [LevelTrace] it parses to [LevelDebug]. *)
Theorem ParseLogLevel_of_String `{UnicodeCase} (l : Level) :
  LevelFatal <= l <= LevelDebug ->
  ParseLogLevel (Level_String l) = (l, None) /\
  snd (ParseLogLevel (Level_String LevelUndefined)) <> None /\
  ParseLogLevel (Level_String LevelTrace) = (LevelDebug, None) /\
  LevelDebug <> LevelTrace.
Proof.
  unfold LevelFatal, LevelDebug. intros Hl.
  assert (Hcases : l = 1 \/ l = 2 \/ l = 3 \/ l = 4 \/ l = 5 \/ l = 6) by lia.
  split; [|split; [|split]].
  - assert (Hlab : In (Level_String l, l) knownAliases).
    { repeat (destruct Hcases as [->|Hcases]; [simpl; auto 20|]).
      subst l. simpl. auto 20. }
    apply (ParseLogLevel_label _ _ _ Hlab).
    apply ToLower_anyCase;
      repeat (destruct Hcases as [->|Hcases]; [reflexivity|]);
      subst l; reflexivity.
  - rewrite ParseLogLevel_no_label; [discriminate|].
    replace (ToLower (Level_String LevelUndefined)) with "undefined".
    + simpl. intuition discriminate.
    + symmetry. now apply ToLower_anyCase.
  - apply (ParseLogLevel_label _ "trace"); [simpl; auto|].
    now apply ToLower_anyCase.
  - discriminate.
Qed.

(** [LevelError] prints as "error", which parses back to [LevelError]. *)
Lemma ParseLogLevel_of_String_witness :
  @ParseLogLevel caselessUnicode (Level_String LevelError)
    = (LevelError, None).
Proof.
  apply (@ParseLogLevel_of_String caselessUnicode LevelError).
  vm_compute. split; discriminate.
Defined.

(** ** Logger derivation *)

Lemma keysOf_merge (receiver new : Fields) :
  keysOf (mergeFields receiver new) = keysOf receiver ++ keysOf new.
Proof. unfold keysOf, mergeFields. apply fmap_app. Qed.

(** A key of the sequence has an entry to read. *)
Lemma getField_is_Some (k : string) (fs : Fields) :
  In k (keysOf fs) -> is_Some (getField k fs).
Proof.
  intros Hk. apply list_elem_of_In, list_elem_of_fmap in Hk as (f & -> & Hf).
  unfold getField. apply last_is_Some. intros Hnil.
  eapply (filter_nil_not_elem_of _ _ f); [exact Hnil|reflexivity|exact Hf].
Qed.

Lemma getField_absent (k : string) (fs : Fields) :
  ~ In k (keysOf fs) -> getField k fs = None.
Proof.
  intros Hk. unfold getField. apply last_None.
  induction fs as [|f fs IH]; [reflexivity|].
  rewrite filter_cons. destruct (decide (Key f = k)) as [Heq|Hne].
  - exfalso. apply Hk. left. exact Heq.
  - apply IH. intros Hin. apply Hk. now right.
Qed.

(** Last write wins: a merged key is read from the new fields. *)
Lemma getField_merge_new (k : string) (receiver new : Fields) :
  In k (keysOf new) ->
  getField k (mergeFields receiver new) = getField k new.
Proof.
  intros Hk. destruct (getField_is_Some k new Hk) as [f Hf].
  unfold getField, mergeFields in *. rewrite filter_app, last_app.
  now rewrite Hf.
Qed.

(** A key the new fields do not mention is read from the receiver's. *)
Lemma getField_merge_old (k : string) (receiver new : Fields) :
  ~ In k (keysOf new) ->
  getField k (mergeFields receiver new) = getField k receiver.
Proof.
  intros Hk. pose proof (getField_absent k new Hk) as Hnone.
  unfold getField, mergeFields in *. rewrite filter_app, last_app.
  now rewrite Hnone.
Qed.

(** C9: [WithFields] on a logger [L] returns a logger that was not there
    before, whose fields contain every key of [F] and read each of them
    from [F] (last write wins), and whose level and hooks are those of
    [L]; [L] and every other logger on the heap read the same fields,
    level and hooks after the call as before. *)
Theorem WithFields_frame
    (heap : gmap ref LoggerObj) (L : ref) (F : Fields) (receiver : LoggerObj) :
  heap !! L = Some receiver ->
  exists (derived : ref) (heap' : gmap ref LoggerObj) (fs' : Fields),
    WithFields L F heap = Some (derived, heap') /\
    derived <> L /\ heap !! derived = None /\
    Logger_Fields derived heap' = Some fs' /\
    (forall k, In k (keysOf F) ->
               In k (keysOf fs') /\ getField k fs' = getField k F) /\
    (forall k, ~ In k (keysOf F) ->
               getField k fs' = getField k (loggerFields receiver)) /\
    Logger_Level derived heap' = Logger_Level L heap /\
    Logger_Hooks derived heap' = Logger_Hooks L heap /\
    Logger_Fields L heap' = Logger_Fields L heap /\
    Logger_Level L heap' = Logger_Level L heap /\
    Logger_Hooks L heap' = Logger_Hooks L heap /\
    (forall other : ref, other <> derived -> heap' !! other = heap !! other).
Proof.
  intros HL.
  pose proof (is_fresh (dom heap)) as Hfresh.
  set (derived := fresh (dom heap)) in *.
  assert (Hnew : heap !! derived = None) by (now apply not_elem_of_dom).
  assert (Hne : derived <> L) by (intros ->; congruence).
  eexists derived, _, (mergeFields (loggerFields receiver) F).
  split; [unfold WithFields; rewrite HL; reflexivity|].
  unfold Logger_Fields, Logger_Level, Logger_Hooks.
  rewrite !lookup_insert_eq, !(lookup_insert_ne _ derived L) by exact Hne.
  rewrite HL. simpl.
  repeat split; try assumption.
  - rewrite keysOf_merge. apply in_or_app. now right.
  - now apply getField_merge_new.
  - intros k Hk. now apply getField_merge_old.
  - intros other Hother. now apply lookup_insert_ne.
Qed.

(** On the sample heap the derived logger reads [request] from the new
    fields, and the receiver still has its one field. *)
Lemma WithFields_frame_witness :
  exists (derived : ref) (heap' : gmap ref LoggerObj) (fs' : Fields),
    WithFields 1%positive sampleFields sampleHeap = Some (derived, heap') /\
    Logger_Fields derived heap' = Some fs' /\
    getField "request" fs' = getField "request" sampleFields /\
    Logger_Fields 1%positive heap' = Some (loggerFields sampleLogger).
Proof.
  destruct (WithFields_frame sampleHeap 1%positive sampleFields sampleLogger)
    as (derived & heap' & fs' & Hcall & _ & _ & Hfs & Hkeys & _ & _ & _ &
        Hsame & _).
  - reflexivity.
  - exists derived, heap', fs'.
    split; [exact Hcall|]. split; [exact Hfs|]. split.
    + apply Hkeys. vm_compute. tauto.
    + rewrite Hsame. reflexivity.
Defined.

(** ** More about [Level.String] and [ParseLogLevel] *)

Lemma Level_in_range (l : Level) :
  LevelUndefined <= l <= LevelTrace ->
  l = LevelUndefined \/ l = LevelFatal \/ l = LevelCritical \/
  l = LevelError \/ l = LevelWarning \/ l = LevelInfo \/ l = LevelDebug \/
  l = LevelTrace.
Proof.
  unfold LevelUndefined, LevelFatal, LevelCritical, LevelError, LevelWarning,
    LevelInfo, LevelDebug, LevelTrace. lia.
Qed.

Lemma Level_range_dec (l : Level) :
  LevelUndefined <= l <= LevelTrace \/ (l < LevelUndefined \/ LevelTrace < l).
Proof. unfold LevelUndefined, LevelTrace. lia. Qed.

(** A constant never prints as "unknown". *)
Lemma Level_String_known (l : Level) :
  LevelUndefined <= l <= LevelTrace -> Level_String l <> "unknown".
Proof.
  intros Hl. apply Level_in_range in Hl.
  repeat (destruct Hl as [->|Hl]; [discriminate|]). subst l. discriminate.
Qed.

Lemma Level_String_inj_range (a b : Level) :
  LevelUndefined <= a <= LevelTrace -> Level_String a = Level_String b ->
  a = b.
Proof.
  intros Ha Heq. destruct (Level_range_dec b) as [Hb|Hb].
  - apply Level_in_range in Ha. apply Level_in_range in Hb.
    repeat (destruct Ha as [->|Ha];
            [repeat (destruct Hb as [->|Hb];
                     [first [reflexivity|discriminate Heq]|]);
             subst b; first [reflexivity|discriminate Heq]|]).
    subst a.
    repeat (destruct Hb as [->|Hb]; [first [reflexivity|discriminate Heq]|]).
    subst b. reflexivity.
  - exfalso. apply (Level_String_known a Ha).
    rewrite Heq. now apply Level_String_outside.
Qed.

(** X1: [Level.String] tells the constants apart: the text of a constant
    is the text of no other level, constant or not, and it is never the
    fallback "unknown". *)
Theorem Level_String_injective (a b : Level) :
  LevelUndefined <= a <= LevelTrace ->
  (Level_String a = Level_String b <-> a = b) /\
  Level_String a <> "unknown".
Proof.
  intros Ha. split; [split|].
  - now apply Level_String_inj_range.
  - intros ->. reflexivity.
  - now apply Level_String_known.
Qed.

(** Only [LevelError] prints as "error": 9 does not. *)
Lemma Level_String_injective_witness :
  (Level_String LevelError = Level_String 9 <-> LevelError = 9 :> Z) /\
  Level_String LevelError <> "unknown".
Proof.
  apply (Level_String_injective LevelError 9).
  vm_compute. split; discriminate.
Defined.

(** A success of [ParseLogLevel] comes from one of its [case] branches. *)
Lemma ParseLogLevel_success_label `{UnicodeCase} (in_ : string) (lvl : Level) :
  ParseLogLevel in_ = (lvl, None) -> In (ToLower in_, lvl) knownAliases.
Proof.
  unfold ParseLogLevel.
  repeat match goal with
         | |- context [if caseOf ?s ?ls then _ else _] =>
             let E := fresh "E" in
             destruct (caseOf s ls) eqn:E;
             [apply caseOf_In in E; intros [= <-]; simpl in E; simpl;
              repeat (destruct E as [E|E]; [rewrite <- E; auto 20|]);
              contradiction|]
         end.
  unfold Errorf. discriminate.
Qed.

Lemma knownAliases_operating (tok : string) (lvl : Level) :
  In (tok, lvl) knownAliases ->
  LevelFatal <= lvl <= LevelDebug /\ lowerWord tok = true /\
  (1 <= String.length tok <= 8)%nat.
Proof.
  simpl. intros Hin.
  repeat (destruct Hin as [[= <- <-]|Hin];
          [vm_compute; repeat split; (discriminate || lia)|]).
  contradiction.
Qed.

(** Printing a level of Fatal..Debug and parsing the text gives it back. *)
Lemma ParseLogLevel_String_operating `{UnicodeCase} (l : Level) :
  LevelFatal <= l <= LevelDebug -> ParseLogLevel (Level_String l) = (l, None).
Proof.
  unfold LevelFatal, LevelDebug. intros Hl.
  assert (Hcases : l = 1 \/ l = 2 \/ l = 3 \/ l = 4 \/ l = 5 \/ l = 6) by lia.
  assert (Hlab : In (Level_String l, l) knownAliases).
  { repeat (destruct Hcases as [->|Hcases]; [simpl; auto 20|]).
    subst l. simpl. auto 20. }
  apply (ParseLogLevel_label _ _ _ Hlab).
  apply ToLower_anyCase;
    repeat (destruct Hcases as [->|Hcases]; [reflexivity|]);
    subst l; reflexivity.
Qed.

(** What [ParseLogLevel] answers to the text of any level at all. *)
Lemma ParseLogLevel_String_cases `{UnicodeCase} (l : Level) :
  (LevelFatal <= l <= LevelDebug /\
   ParseLogLevel (Level_String l) = (l, None)) \/
  (l = LevelTrace /\ ParseLogLevel (Level_String l) = (LevelDebug, None)) \/
  ((l <= LevelUndefined \/ LevelTrace < l) /\
   ParseLogLevel (Level_String l)
     = (LevelUndefined, Some (rejection (Level_String l)))).
Proof.
  destruct (Level_range_dec l) as [Hin|Hout].
  - apply Level_in_range in Hin.
    destruct Hin as [->|Hin].
    { right. right. split; [left; reflexivity|].
      apply ParseLogLevel_no_label.
      replace (ToLower (Level_String LevelUndefined)) with "undefined"
        by (symmetry; now apply ToLower_anyCase).
      simpl. intuition discriminate. }
    destruct (Z.eq_dec l LevelTrace) as [->|Hne].
    { right. left. split; [reflexivity|].
      apply (ParseLogLevel_label _ "trace"); [simpl; auto|].
      now apply ToLower_anyCase. }
    left. assert (Hl : LevelFatal <= l <= LevelDebug).
    { unfold LevelFatal, LevelCritical, LevelError, LevelWarning, LevelInfo,
        LevelDebug, LevelTrace in *. lia. }
    split; [exact Hl|now apply ParseLogLevel_String_operating].
  - right. right. split; [unfold LevelUndefined, LevelTrace in *; lia|].
    rewrite (Level_String_outside l Hout).
    apply ParseLogLevel_no_label.
    replace (ToLower "unknown") with "unknown"
      by (symmetry; now apply ToLower_anyCase).
    simpl. intuition discriminate.
Qed.

(** X2: a successfully parsed level is a fixed point of printing and
    parsing again: whatever text was accepted, the canonical text of the
    level it gave is accepted too and gives the same level. *)
Theorem ParseLogLevel_String_ParseLogLevel `{UnicodeCase} (in_ : string) :
  snd (ParseLogLevel in_) = None ->
  ParseLogLevel (Level_String (fst (ParseLogLevel in_))) = ParseLogLevel in_.
Proof.
  destruct (ParseLogLevel in_) as [lvl err] eqn:Hparse. simpl.
  intros ->. apply ParseLogLevel_success_label in Hparse.
  apply knownAliases_operating in Hparse as [Hlvl _].
  now apply ParseLogLevel_String_operating.
Qed.

(** "T" is accepted as [LevelDebug], whose text "debug" parses to the
    same result. *)
Lemma ParseLogLevel_String_ParseLogLevel_witness :
  @ParseLogLevel caselessUnicode
     (Level_String (fst (@ParseLogLevel caselessUnicode "T")))
  = @ParseLogLevel caselessUnicode "T".
Proof.
  apply (@ParseLogLevel_String_ParseLogLevel caselessUnicode "T").
  reflexivity.
Defined.

(** X3: the levels that survive printing and parsing are exactly
    Fatal..Debug: [ParseLogLevel (l.String())] returns [l] with a nil
    error if and only if [l] lies in that range, and for a level that is
    none of the constants the text "unknown" is rejected. *)
Theorem ParseLogLevel_String_iff `{UnicodeCase} (l : Level) :
  (ParseLogLevel (Level_String l) = (l, None) <->
   LevelFatal <= l <= LevelDebug) /\
  (snd (ParseLogLevel (Level_String l)) = None <->
   LevelFatal <= l <= LevelTrace) /\
  (~ LevelUndefined <= l <= LevelTrace ->
   ParseLogLevel (Level_String l)
     = (LevelUndefined, Some (rejection "unknown"))).
Proof.
  destruct (ParseLogLevel_String_cases l)
    as [[Hl Hp]|[[-> Hp]|[Hl Hp]]]; rewrite Hp; simpl.
  - unfold LevelFatal, LevelDebug, LevelUndefined, LevelTrace in *.
    repeat split; intros; try lia; try reflexivity.
  - unfold LevelFatal, LevelDebug, LevelUndefined, LevelTrace.
    repeat split; intros; try lia; try discriminate; try reflexivity.
  - unfold LevelFatal, LevelDebug, LevelUndefined, LevelTrace in *.
    repeat split; intros; try lia; try discriminate.
    rewrite Level_String_outside by (unfold LevelUndefined, LevelTrace; lia).
    reflexivity.
Qed.

(** An ASCII byte whose lower-case form is a letter is that letter or its
    capital. *)
Lemma lowerByte_spelling (c : ascii) :
  isLowerByte (lowerByte c) = true ->
  c = lowerByte c \/ c = upperByte (lowerByte c).
Proof.
  unfold lowerByte. destruct (isUpperByte c) eqn:Hup; [|now left].
  intros Hlow. right. unfold upperByte. rewrite Hlow.
  apply isUpperByte_spec in Hup.
  rewrite byteOf_ascii_of_N by lia.
  replace (byteOf c + 32 - 32)%N with (byteOf c) by lia.
  symmetry. apply ascii_N_embedding.
Qed.

Lemma lowerASCII_anyCase (s : string) :
  lowerWord (lowerASCII s) = true -> anyCase s (lowerASCII s) = true.
Proof.
  induction s as [|c s IH]; simpl; [reflexivity|].
  rewrite !andb_true_iff. intros [Hc Hs]. split; [|now apply IH].
  apply orb_true_iff.
  destruct (lowerByte_spelling c Hc) as [Heq|Heq].
  - left. rewrite <- Heq. apply Ascii.eqb_refl.
  - right. rewrite <- Heq. apply Ascii.eqb_refl.
Qed.

Lemma anyCase_length (s tok : string) :
  anyCase s tok = true -> String.length s = String.length tok.
Proof.
  revert tok. induction s as [|c s IH]; intros [|t tok]; simpl;
    try discriminate; [reflexivity|].
  rewrite andb_true_iff. intros [_ Hs]. f_equal. now apply IH.
Qed.

(** An accepted ASCII input spells the label of the branch it hit. *)
Lemma ParseLogLevel_success_spelling `{UnicodeCase}
    (in_ : string) (lvl : Level) :
  isASCII in_ = true -> ParseLogLevel in_ = (lvl, None) ->
  In (lowerASCII in_, lvl) knownAliases /\
  anyCase in_ (lowerASCII in_) = true.
Proof.
  intros Hascii Hparse. apply ParseLogLevel_success_label in Hparse.
  rewrite (ToLower_ascii in_ Hascii) in Hparse. split; [exact Hparse|].
  apply lowerASCII_anyCase.
  now destruct (knownAliases_operating _ _ Hparse) as (_ & Hword & _).
Qed.

(** X4: [ParseLogLevel] accepts an ASCII input only if it spells one of
    the [case] labels, letter by letter in either case: nothing is
    trimmed or skipped, so an accepted ASCII input has between one and
    eight bytes, and the level is the one of that label. *)
Theorem ParseLogLevel_accepts_only_labels `{UnicodeCase}
    (in_ : string) (lvl : Level) :
  isASCII in_ = true -> ParseLogLevel in_ = (lvl, None) ->
  exists tok,
    In (tok, lvl) knownAliases /\ anyCase in_ tok = true /\
    (1 <= String.length in_ <= 8)%nat.
Proof.
  intros Hascii Hparse.
  destruct (ParseLogLevel_success_spelling in_ lvl Hascii Hparse)
    as [Hlabel Hspell].
  exists (lowerASCII in_). split; [exact Hlabel|]. split; [exact Hspell|].
  rewrite (anyCase_length _ _ Hspell).
  now destruct (knownAliases_operating _ _ Hlabel) as (_ & _ & Hlen).
Qed.

(** "Err" is accepted, so it spells a label of [LevelError]. *)
Lemma ParseLogLevel_accepts_only_labels_witness :
  exists tok,
    In (tok, LevelError) knownAliases /\ anyCase "Err" tok = true /\
    (1 <= String.length "Err" <= 8)%nat.
Proof.
  apply (@ParseLogLevel_accepts_only_labels caselessUnicode "Err" LevelError);
    reflexivity.
Defined.

(** X5: the levels [ParseLogLevel] can return with a nil error are
    exactly those whose names its error message lists as known values:
    the [switch] and the loop over Fatal..Debug agree. *)
Theorem ParseLogLevel_returns_allowedValues `{UnicodeCase} (lvl : Level) :
  (exists in_, ParseLogLevel in_ = (lvl, None)) <->
  In (Level_String lvl) allowedValues.
Proof.
  split.
  - intros [in_ Hparse]. apply ParseLogLevel_success_label in Hparse.
    destruct (knownAliases_operating _ _ Hparse) as (Hlvl & _ & _).
    unfold LevelFatal, LevelDebug in Hlvl.
    assert (Hcases : lvl = 1 \/ lvl = 2 \/ lvl = 3 \/ lvl = 4 \/ lvl = 5 \/
                     lvl = 6) by lia.
    rewrite allowedValues_eq.
    repeat (destruct Hcases as [->|Hcases]; [simpl; auto 10|]).
    subst lvl. simpl. auto 10.
  - rewrite allowedValues_eq. intros Hin.
    exists (Level_String lvl). apply ParseLogLevel_String_operating.
    assert (Hlvl : exists l, LevelFatal <= l <= LevelDebug /\
                             Level_String l = Level_String lvl).
    { simpl in Hin.
      destruct Hin as [Hin|[Hin|[Hin|[Hin|[Hin|[Hin|[]]]]]]];
        [exists LevelFatal|exists LevelCritical|exists LevelError
        |exists LevelWarning|exists LevelInfo|exists LevelDebug];
        (split; [vm_compute; split; discriminate|exact Hin]). }
    destruct Hlvl as (l & Hl & Heq).
    rewrite <- (Level_String_inj_range l lvl); [exact Hl| |exact Heq].
    unfold LevelUndefined, LevelFatal, LevelDebug, LevelTrace in *. lia.
Qed.

Lemma append_cons (x : ascii) (a b : string) :
  String x a +:+ b = String x (a +:+ b).
Proof. reflexivity. Qed.

Lemma append_length (a b : string) :
  String.length (a +:+ b) = (String.length a + String.length b)%nat.
Proof.
  induction a as [|c a IH]; [reflexivity|].
  rewrite append_cons. simpl. now rewrite IH.
Qed.

(** Equal texts with a common ending have equal beginnings. *)
Lemma append_inj_r (a b c : string) : a +:+ c = b +:+ c -> a = b.
Proof.
  revert b. induction a as [|x a IH]; intros [|y b] Heq.
  - reflexivity.
  - exfalso. apply (f_equal String.length) in Heq.
    rewrite !append_length in Heq. simpl in Heq. lia.
  - exfalso. apply (f_equal String.length) in Heq.
    rewrite !append_length in Heq. simpl in Heq. lia.
  - rewrite !append_cons in Heq. injection Heq as -> Heq.
    f_equal. now apply IH.
Qed.

(** X6: the error of a rejected input identifies the input: two rejected
    inputs with the same error message are the same string, byte for
    byte. *)
Theorem ParseLogLevel_error_identifies_input `{UnicodeCase} (a b : string) :
  ~ In (ToLower a) knownLabels -> ~ In (ToLower b) knownLabels ->
  snd (ParseLogLevel a) = snd (ParseLogLevel b) -> a = b.
Proof.
  intros Ha Hb. rewrite (ParseLogLevel_no_label a Ha).
  rewrite (ParseLogLevel_no_label b Hb). simpl.
  unfold rejection. intros [= Heq].
  exact (append_inj_r a b _ Heq).
Qed.

(** The errors for "verbose" and "Verbose" differ. *)
Lemma ParseLogLevel_error_identifies_input_witness :
  ~ snd (@ParseLogLevel caselessUnicode "verbose")
    = snd (@ParseLogLevel caselessUnicode "Verbose").
Proof.
  intros Heq.
  assert (Hsame : "verbose" = "Verbose");
    [|discriminate Hsame].
  apply (@ParseLogLevel_error_identifies_input caselessUnicode);
    [vm_compute; intuition discriminate
    |vm_compute; intuition discriminate|exact Heq].
Defined.

(** X7: on ASCII input the case-insensitivity of [ParseLogLevel] needs
    nothing from the Unicode tables: two ASCII inputs that differ only in
    the case of their letters get the same level and the same outcome,
    and so does the lower-cased form of an ASCII input. *)
Theorem ParseLogLevel_case_insensitive_ascii `{UnicodeCase} (a b : string) :
  isASCII a = true -> isASCII b = true -> lowerASCII a = lowerASCII b ->
  (fst (ParseLogLevel a) = fst (ParseLogLevel b) /\
   (snd (ParseLogLevel a) = None <-> snd (ParseLogLevel b) = None)) /\
  (fst (ParseLogLevel (ToLower a)) = fst (ParseLogLevel a) /\
   (snd (ParseLogLevel (ToLower a)) = None <-> snd (ParseLogLevel a) = None)).
Proof.
  intros Ha Hb Heq. split.
  - apply ParseLogLevel_by_subject.
    now rewrite (ToLower_ascii a Ha), (ToLower_ascii b Hb).
  - apply ParseLogLevel_by_subject. now apply ToLower_fixed_ascii.
Qed.

(** "InFo" and "iNfO" are both [LevelInfo]. *)
Lemma ParseLogLevel_case_insensitive_ascii_witness :
  fst (@ParseLogLevel caselessUnicode "InFo")
  = fst (@ParseLogLevel caselessUnicode "iNfO").
Proof.
  apply (@ParseLogLevel_case_insensitive_ascii caselessUnicode "InFo" "iNfO");
    reflexivity.
Defined.

(** X8: every level can be abbreviated to its initial: when an ASCII
    input is accepted, its first byte alone is accepted with the same
    level. *)
Theorem ParseLogLevel_initial `{UnicodeCase}
    (c : ascii) (rest : string) (lvl : Level) :
  isASCII (String c rest) = true ->
  ParseLogLevel (String c rest) = (lvl, None) ->
  ParseLogLevel (String c EmptyString) = (lvl, None).
Proof.
  intros Hascii Hparse.
  destruct (ParseLogLevel_success_spelling _ lvl Hascii Hparse)
    as [Hlabel Hspell].
  simpl in Hlabel, Hspell. apply andb_true_iff in Hspell as [Hc _].
  assert (Hinitial : In (String (lowerByte c) EmptyString, lvl) knownAliases).
  { revert Hlabel. generalize (lowerByte c) (lowerASCII rest).
    intros t tok Hlabel. simpl in Hlabel.
    repeat (destruct Hlabel as [[= <- <- <-]|Hlabel]; [simpl; auto 20|]).
    contradiction. }
  apply (ParseLogLevel_label _ _ _ Hinitial).
  apply ToLower_anyCase.
  - now destruct (knownAliases_operating _ _ Hinitial) as (_ & Hword & _).
  - simpl. now rewrite Hc.
Qed.

(** "Warning" is [LevelWarning], and so is "W". *)
Lemma ParseLogLevel_initial_witness :
  @ParseLogLevel caselessUnicode "W" = (LevelWarning, None).
Proof.
  apply (@ParseLogLevel_initial caselessUnicode "W" "arning" LevelWarning);
    reflexivity.
Defined.

(** ** [Tools.Get] *)

(** Asked for the nil type, [Get] answers nil: a nil entry is the only
    kind of entry it can return. *)
Lemma Tools_Get_nil_type (tools : list Tool) : Tools_Get tools None = None.
Proof.
  induction tools as [|tool tools IH]; simpl; [reflexivity|].
  destruct (decide (reflect_TypeOf tool = None)) as [Heq|_]; [|exact IH].
  now destruct tool.
Qed.

Lemma Tools_Get_skip (before rest : list Tool) (toolType : reflect_Type) :
  (forall u, In u before -> reflect_TypeOf u <> toolType) ->
  Tools_Get (before ++ rest) toolType = Tools_Get rest toolType.
Proof.
  induction before as [|u before IH]; intros Hskip; simpl; [reflexivity|].
  destruct (decide (reflect_TypeOf u = toolType)) as [Heq|_].
  - exfalso. apply (Hskip u); [now left|exact Heq].
  - apply IH. intros v Hv. apply Hskip. now right.
Qed.

(** X9: [Get] returns a tool exactly when that tool is the first entry of
    the collection with the requested dynamic type: every entry before
    it has another type, and entries after it, of the same type or not,
    are not looked at. *)
Theorem Tools_Get_first_match
    (tools : list Tool) (toolType : reflect_Type) (t : iface) :
  Tools_Get tools toolType = Some t <->
  exists before after,
    tools = before ++ Some t :: after /\
    reflect_TypeOf (Some t) = toolType /\
    (forall u, In u before -> reflect_TypeOf u <> toolType).
Proof.
  split.
  - induction tools as [|tool tools IH]; simpl; [discriminate|].
    destruct (decide (reflect_TypeOf tool = toolType)) as [Heq|Hne].
    + intros ->. exists [], tools. split; [reflexivity|].
      split; [exact Heq|]. intros u [].
    + intros Hget. destruct (IH Hget) as (before & after & -> & Hty & Hskip).
      exists (tool :: before), after. split; [reflexivity|].
      split; [exact Hty|]. intros u [<-|Hu]; [exact Hne|now apply Hskip].
  - intros (before & after & -> & Hty & Hskip).
    rewrite (Tools_Get_skip before _ toolType Hskip). simpl.
    case_decide as Hne; [reflexivity|]. exfalso. apply Hne. exact Hty.
Qed.

(** X10: [Get] returns nil exactly when it is asked for the nil type or no
    entry of the collection has the requested dynamic type; on an empty
    collection it always returns nil. *)
Theorem Tools_Get_nil (tools : list Tool) (toolType : reflect_Type) :
  (Tools_Get tools toolType = None <->
   toolType = None \/
   (forall u, In u tools -> reflect_TypeOf u <> toolType)) /\
  Tools_Get [] toolType = None.
Proof.
  split; [|reflexivity]. split.
  - intros Hget. destruct toolType as [ty|]; [|now left]. right.
    induction tools as [|tool tools IH]; [intros u []|].
    simpl in Hget.
    destruct (decide (reflect_TypeOf tool = Some ty)) as [Heq|Hne].
    + subst tool. discriminate Heq.
    + intros u [<-|Hu]; [exact Hne|now apply IH].
  - intros [->|Hnone]; [apply Tools_Get_nil_type|].
    rewrite <- (app_nil_r tools).
    now rewrite (Tools_Get_skip tools [] toolType Hnone).
Qed.

(** X11: tools appended to a collection never shadow the ones already in
    it: [Get] on the longer collection answers from the first part
    whenever that part has a tool of the type, and from the appended
    part otherwise. *)
Theorem Tools_Get_app (tools more : list Tool) (toolType : reflect_Type) :
  Tools_Get (tools ++ more) toolType =
  match Tools_Get tools toolType with
  | Some t => Some t
  | None => Tools_Get more toolType
  end.
Proof.
  induction tools as [|tool tools IH]; simpl; [reflexivity|].
  destruct (decide (reflect_TypeOf tool = toolType)) as [Heq|Hne];
    [|exact IH].
  destruct tool as [t|]; [reflexivity|].
  simpl in Heq. subst toolType. symmetry. apply Tools_Get_nil_type.
Qed.

(** ** [obscontext.WithObs] and [obscontext.Obs] *)

Lemma context_Value_skip
    (layers ctx : Context) (key : contextKey) :
  (forall kv, In kv layers -> fst kv <> key) ->
  context_Value (layers ++ ctx) key = context_Value ctx key.
Proof.
  induction layers as [|[k v] layers IH]; intros Hskip; simpl; [reflexivity|].
  destruct (decide (k = key)) as [Heq|_].
  - exfalso. apply (Hskip (k, v)); [now left|exact Heq].
  - apply IH. intros kv Hkv. apply Hskip. now right.
Qed.

(** Through foreign layers [Value] finds what [WithObs] stored. *)
Lemma context_Value_WithObs (layers ctx : Context) (obs : pointer) :
  (forall kv, In kv layers -> fst kv <> ctxKeyObserver) ->
  context_Value (layers ++ WithObs ctx obs) ctxKeyObserver
  = observerValue obs.
Proof.
  intros Hskip. rewrite (context_Value_skip layers _ ctxKeyObserver Hskip).
  unfold WithObs, context_WithValue. simpl.
  destruct (decide (ctxKeyObserver = ctxKeyObserver)) as [_|Hne];
    [reflexivity|contradiction].
Qed.

(** X12: [Obs] returns the pointer of the innermost [WithObs], whatever
    values other packages have put around it under their own keys and
    whatever observers lie further out; this holds for a nil pointer
    too, which is returned as it is instead of [obs.Default()]. *)
Theorem Obs_WithObs
    (Default obs : pointer) (layers ctx : Context) :
  (forall kv, In kv layers -> fst kv <> ctxKeyObserver) ->
  Obs Default (layers ++ WithObs ctx obs) = Some obs.
Proof.
  intros Hskip. unfold Obs.
  now rewrite (context_Value_WithObs layers ctx obs Hskip).
Qed.

(** A nil observer under a foreign value, over an older observer. *)
Lemma Obs_WithObs_witness :
  Obs (addressOf 1%positive)
      ([(foreignKey 5%positive, foreignValue 6%positive)]
       ++ WithObs (WithObs [] (addressOf 2%positive)) nilPointer)
  = Some nilPointer.
Proof.
  apply (Obs_WithObs (addressOf 1%positive) nilPointer
           [(foreignKey 5%positive, foreignValue 6%positive)]
           (WithObs [] (addressOf 2%positive))).
  intros kv [<-|[]]. discriminate.
Defined.

(** X13: on every context a program can build, [Obs] returns: its type
    assertion never panics, because only [WithObs] stores under the
    unexported key; and when no [WithObs] was applied at all it returns
    [obs.Default()]. *)
Theorem Obs_reachable (Default : pointer) (ctx : Context) :
  reachableContext ctx ->
  (exists p, Obs Default ctx = Some p) /\
  ((forall kv, In kv ctx -> fst kv <> ctxKeyObserver) ->
   Obs Default ctx = Some Default).
Proof.
  intros Hctx. split.
  - induction Hctx as [|ctx obs _ _|ctx k val _ IH].
    + now exists Default.
    + exists obs. unfold Obs.
      change (WithObs ctx obs) with ([] ++ WithObs ctx obs).
      rewrite (context_Value_WithObs [] ctx obs); [reflexivity|].
      intros kv [].
    + destruct IH as [p Hp]. exists p. unfold Obs in *.
      unfold context_WithValue. simpl.
      destruct (decide (foreignKey k = ctxKeyObserver)) as [Heq|_];
        [discriminate Heq|exact Hp].
  - intros Hnone. unfold Obs.
    rewrite <- (app_nil_r ctx).
    now rewrite (context_Value_skip ctx [] ctxKeyObserver Hnone).
Qed.

(** A context with one foreign value and no observer gives the default. *)
Lemma Obs_reachable_witness :
  Obs (addressOf 1%positive)
      (context_WithValue [] (foreignKey 5%positive) nilValue)
  = Some (addressOf 1%positive).
Proof.
  apply (Obs_reachable (addressOf 1%positive)
           (context_WithValue [] (foreignKey 5%positive) nilValue)).
  - apply reachable_foreign, reachable_root.
  - intros kv [<-|[]]. discriminate.
Defined.
